(** * enumerate.hpp: an index-tagging range adapter

    A shallow embedding of [src/enumerate.hpp] and of the Catch2 cases that
    exercise it, together with the properties the design document states
    about them.

    Layout of the development:
    - [SizeT]    the unsigned counter type [size_t], with its wrap-around;
    - [Static]   the compile-time layer: the template arguments chosen by the
                 two [enumerate] overloads, the [tuple_size]/[tuple_element]
                 specialisations and the deduced return types of [get];
    - [Enum]     the run-time layer: containers living in a store and reached
                 through references, container iterators, the
                 [EnumeratedIteratorResult] value, [Enumerator::Iterator],
                 [Enumerator], and the range-based [for] statement;
    - [Tests]    the three sections of the test case;
    - the theorems. *)

From stdpp Require Import base option list gmap.
From Stdlib Require Import ZArith Lia.

Local Open Scope Z_scope.

(* ===================================================================== *)
(** ** [size_t] and [int] *)
(* ===================================================================== *)

Module SizeT.

(** [size_t], taken 64 bits wide (LP64): unsigned, arithmetic modulo
    [2^64]. *)
Definition BITS : Z := 64.
Definition MODULUS : Z := 2 ^ BITS.
Definition MAX : Z := MODULUS - 1.

Definition wrap (z : Z) : Z := z mod MODULUS.

(** [++i] on a [size_t]. *)
Definition incr (i : Z) : Z := wrap (i + 1).

End SizeT.

(** [static_cast<int>(x)] for a 32-bit two's complement [int]. *)
Definition static_cast_int (z : Z) : Z :=
  (z + 2 ^ 31) mod 2 ^ 32 - 2 ^ 31.

(** The conversion of an [int] to [size_t] that the usual arithmetic
    conversions apply in [value == index]. *)
Definition int_to_size_t (z : Z) : Z := SizeT.wrap z.

(** How the container reaches [enumerate]: as [Container&] or as
    [const Container&].  The two overloads turn this into template arguments;
    nothing of it is left at run time. *)
Inductive Binding : Type :=
| MutableBinding
| ReadOnlyBinding.

#[global] Instance Binding_eq_dec : EqDecision Binding.
Proof. solve_decision. Defined.

(* ===================================================================== *)
(** ** The compile-time layer *)
(* ===================================================================== *)

Module Static.

(** The two base types that occur: [size_t] and the container's
    [value_type]. *)
Inductive BaseType : Type :=
| size_t
| value_type.

(** A type as the header manipulates it: a base type, whether it (or, for a
    reference, the type referred to) is [const], and whether it is an lvalue
    reference. *)
Record CType : Type := mkCType {
  is_const : bool;
  base : BaseType;
  is_lref : bool
}.

#[global] Instance BaseType_eq_dec : EqDecision BaseType.
Proof. solve_decision. Defined.

#[global] Instance CType_eq_dec : EqDecision CType.
Proof. solve_decision. Defined.

(** [const T] where [T] comes from a typedef-name: a [const] applied to a
    reference type is ignored. *)
Definition add_const (t : CType) : CType :=
  if is_lref t then t else mkCType true (base t) false.

(** [T&]. *)
Definition add_lref (t : CType) : CType :=
  mkCType (is_const t) (base t) true.

(** What [auto&] deduces from an lvalue of type [t]. *)
Definition deduce_auto_ref (t : CType) : CType :=
  mkCType (is_const t) (base t) true.

(** What [const auto&] deduces from an lvalue of type [t]. *)
Definition deduce_const_auto_ref (t : CType) : CType :=
  mkCType true (base t) true.

(** [Container::iterator] and [Container::const_iterator]. *)
Inductive IteratorKind : Type :=
| iterator
| const_iterator.

(** The type of [*it] for a container iterator. *)
Definition deref_type (k : IteratorKind) : CType :=
  match k with
  | iterator => mkCType false value_type true
  | const_iterator => mkCType true value_type true
  end.

(** The arguments of [EnumeratedIteratorResult<IteratorType, ValueType>]. *)
Record ResultArgs : Type := mkResultArgs {
  IteratorType : IteratorKind;
  ValueType : CType
}.

(** The member typedefs of [EnumeratedIteratorResult]. *)
Definition index_type (_ : ResultArgs) : CType := mkCType false size_t false.
Definition value_type_of (T : ResultArgs) : CType := ValueType T.
Definition ref_type (T : ResultArgs) : CType := add_lref (ValueType T).

(** The non-static data members of the struct, in declaration order:
    [index_type index; IteratorType value;]. *)
Inductive Member : Type :=
| member_index
| member_value.

Definition data_members : list Member := [member_index; member_value].

(** The second argument of [tuple_size] and [tuple_element]: an
    [EnumeratedIteratorResult<...>], possibly [const], possibly [&]. *)
Record ResultType : Type := mkResultType {
  args : ResultArgs;
  r_const : bool;
  r_lref : bool
}.

(** [std::tuple_size<E>::value].  The header specialises it for the plain
    struct; [<utility>] forwards [const E] to it; nothing is declared for a
    reference. *)
Definition tuple_size (E : ResultType) : option nat :=
  if r_lref E then None else Some 2%nat.

(** [std::tuple_element<i, E>::type], specialisation by specialisation.
    [<0, const E>] is the forwarding specialisation of [<utility>], which
    adds [const] to [<0, E>]. *)
Definition tuple_element (i : nat) (E : ResultType) : option CType :=
  match i, r_lref E, r_const E with
  | 0%nat, false, false => Some (add_const (index_type (args E)))
  | 0%nat, false, true => Some (add_const (add_const (index_type (args E))))
  | 1%nat, true, false => Some (ref_type (args E))
  | 1%nat, true, true => Some (add_const (ref_type (args E)))
  | 1%nat, false, false => Some (value_type_of (args E))
  | 1%nat, false, true => Some (add_const (value_type_of (args E)))
  | _, _, _ => None
  end.

(** The deduced return type of [get<i>(e)].  A plain lvalue selects the
    overload returning [auto&], a [const] one the overload returning
    [const auto&]; an index other than 0 and 1 leaves both without a
    [return] statement. *)
Definition get_type (i : nat) (obj_const : bool) (T : ResultArgs)
  : option CType :=
  match i, obj_const with
  | 0%nat, false => Some (deduce_auto_ref (index_type T))
  | 0%nat, true => Some (deduce_const_auto_ref (index_type T))
  | 1%nat, false => Some (deduce_auto_ref (deref_type (IteratorType T)))
  | 1%nat, true => Some (deduce_const_auto_ref (deref_type (IteratorType T)))
  | _, _ => None
  end.

(** The type of the member access [e.index]: the member is declared
    [index_type index;], so it is [const] exactly when [e] is. *)
Definition member_index_type (obj_const : bool) (T : ResultArgs) : CType :=
  mkCType obj_const (base (index_type T)) false.

(** The type of [*e.value]: dereferencing the stored container iterator. *)
Definition member_value_deref_type (obj_const : bool) (T : ResultArgs)
  : CType :=
  deref_type (IteratorType T).

(** The arguments of [Enumerator<Container, ContainerValue,
    ContainerIterator>]. *)
Record EnumeratorArgs : Type := mkEnumeratorArgs {
  Container_const : bool;
  ContainerValue : CType;
  ContainerIterator : IteratorKind
}.

(** The type of the member [_enumeratedValue] of [Enumerator::Iterator]. *)
Definition enumeratedValue_args (A : EnumeratorArgs) : ResultArgs :=
  mkResultArgs (ContainerIterator A) (ContainerValue A).

(** The return types of the two [enumerate] overloads. *)
Definition enumerate_return (b : Binding) : EnumeratorArgs :=
  match b with
  | MutableBinding =>
      mkEnumeratorArgs false (mkCType false value_type false) iterator
  | ReadOnlyBinding =>
      mkEnumeratorArgs true (mkCType true value_type false) const_iterator
  end.

(** Overload resolution of [enumerate(c)]: an lvalue of non-const type binds
    best to [Container&]; for a [const] one both templates are viable with
    the same conversions and the more specialised [const Container&] wins. *)
Definition enumerate_overload (container_is_const : bool) : Binding :=
  if container_is_const then ReadOnlyBinding else MutableBinding.

Definition result_args (b : Binding) : ResultArgs :=
  enumeratedValue_args (enumerate_return b).

(** The forms of a structured binding declaration [... [index, value] = *it]. *)
Inductive Decl : Type :=
| auto_ref          (* auto& [index, value] *)
| const_auto_ref    (* const auto& [index, value] *)
| const_auto.       (* const auto [index, value] *)

Definition decl_const (d : Decl) : bool :=
  match d with
  | auto_ref => false
  | const_auto_ref | const_auto => true
  end.

(** The type [E] of the object a structured binding declaration introduces
    when it is initialised with [*it], which is an lvalue of the plain
    struct type ([operator*] returns [auto&]). *)
Definition decl_E (d : Decl) (T : ResultArgs) : ResultType :=
  mkResultType T (decl_const d) false.

(** The type of the [i]-th name of a structured binding. *)
Definition binding_type (d : Decl) (i : nat) (T : ResultArgs)
  : option CType :=
  tuple_element i (decl_E d T).

(** The ways a caller reaches a field of a Result pair. *)
Inductive AccessPath : Type :=
| ByName (obj_const : bool)      (* e.index, *e.value *)
| ByGet (obj_const : bool)       (* get<0>(e), get<1>(e) *)
| ByStructuredBinding (d : Decl).

Definition position_type (p : AccessPath) (T : ResultArgs) : option CType :=
  match p with
  | ByName c => Some (member_index_type c T)
  | ByGet c => get_type 0 c T
  | ByStructuredBinding d => binding_type d 0 T
  end.

Definition element_type (p : AccessPath) (T : ResultArgs) : option CType :=
  match p with
  | ByName c => Some (member_value_deref_type c T)
  | ByGet c => get_type 1 c T
  | ByStructuredBinding d => binding_type d 1 T
  end.

(** An assignment [x = v] type-checks when the type of [x] exists and is not
    [const]. *)
Definition assignable (t : option CType) : bool :=
  match t with
  | Some t => negb (is_const t)
  | None => false
  end.

(** Field 0 is read-only for a binding and an access path when assigning
    to it there does not type-check. *)
Definition position_read_only (b : Binding) (p : AccessPath) : Prop :=
  assignable (position_type p (result_args b)) = false.

(** The element is read-only for a binding and an access path when
    assigning to it there does not type-check. *)
Definition element_read_only (b : Binding) (p : AccessPath) : Prop :=
  assignable (element_type p (result_args b)) = false.

(** The forms of a structured binding declaration once more, the plain
    [auto [index, value]] that the header's comments rule out included. *)
Inductive BindingForm : Type :=
| form_of (d : Decl)
| form_auto.

Definition form_const (f : BindingForm) : bool :=
  match f with
  | form_of d => decl_const d
  | form_auto => false
  end.

(** Whether the object [e] the declaration introduces is a reference to the
    result ([get<i>(e)] then receives an lvalue) or a copy of it (an
    xvalue). *)
Definition form_is_ref (f : BindingForm) : bool :=
  match f with
  | form_of auto_ref | form_of const_auto_ref => true
  | form_of const_auto | form_auto => false
  end.

(** The overload of [get] that [get<i>(e)] selects: the one taking
    [EnumeratedIteratorResult&] accepts a non-const lvalue only; everything
    else goes to the one taking [const EnumeratedIteratorResult&]. *)
Definition selected_get_const (f : BindingForm) : bool :=
  negb (form_is_ref f && negb (form_const f)).

(** The type [tuple_element<i, E>::type] the [i]-th name refers to. *)
Definition name_type (f : BindingForm) (i : nat) (T : ResultArgs)
  : option CType :=
  tuple_element i (mkResultType T (form_const f) false).

(** The type of its initialiser [get<i>(e)]. *)
Definition init_type (f : BindingForm) (i : nat) (T : ResultArgs)
  : option CType :=
  get_type i (selected_get_const f) T.

(** A reference to [target] binds to an lvalue of type [init] when both
    exist, have the same base type, and no [const] is dropped. *)
Definition reference_binds (target init : option CType) : bool :=
  match target, init with
  | Some t, Some g =>
      bool_decide (base t = base g) && implb (is_const g) (is_const t)
  | _, _ => false
  end.

(** The declaration type-checks when both names can be initialised. *)
Definition form_well_formed (f : BindingForm) (T : ResultArgs) : bool :=
  reference_binds (name_type f 0 T) (init_type f 0 T)
  && reference_binds (name_type f 1 T) (init_type f 1 T).

End Static.

(* ===================================================================== *)
(** ** The run-time layer *)
(* ===================================================================== *)

Module Enum.

(** Containers live in a store and are reached through references; the
    adapter never copies one.  A store maps the address of a container to
    its elements, in order. *)
Abbreviation loc := positive.
Abbreviation Heap V := (gmap positive (list V)).

(** A container iterator ([Container::iterator] or
    [Container::const_iterator]): the container it walks and the distance
    from that container's first element. *)
Record ContainerIterator : Type := mkContainerIterator {
  it_container : loc;
  it_offset : nat
}.

#[global] Instance ContainerIterator_eq_dec : EqDecision ContainerIterator.
Proof. solve_decision. Defined.

(** [++it] on a container iterator. *)
Definition iter_incr (it : ContainerIterator) : ContainerIterator :=
  mkContainerIterator (it_container it) (S (it_offset it)).

(** [struct EnumeratedIteratorResult]: the two data members.  The parameter
    stands for the template arguments, which exist at compile time only. *)
Record EnumeratedIteratorResult (b : Binding) : Type := mkResult {
  index : Z;
  value : ContainerIterator
}.
Arguments mkResult {b} _ _.
Arguments index {b} _.
Arguments value {b} _.

(** Assignments to the data members of an existing result object. *)
Definition set_index {b} (r : EnumeratedIteratorResult b) (i : Z)
  : EnumeratedIteratorResult b :=
  mkResult i (value r).

Definition set_value {b} (r : EnumeratedIteratorResult b)
  (it : ContainerIterator) : EnumeratedIteratorResult b :=
  mkResult (index r) it.

(** [get<0>]: the branch [Index == 0] returns [enumeratedValue.index]. *)
Definition get_0 {b} (enumeratedValue : EnumeratedIteratorResult b) : Z :=
  index enumeratedValue.

(** [class Enumerator::Iterator]: the data members, in declaration order. *)
Record Iterator (b : Binding) : Type := mkIterator {
  _enumeratedValue : EnumeratedIteratorResult b;
  _containerIt : ContainerIterator;
  _index : Z
}.
Arguments mkIterator {b} _ _ _.
Arguments _enumeratedValue {b} _.
Arguments _containerIt {b} _.
Arguments _index {b} _.

(** The constructor [Iterator(ContainerIterator containerIt, size_t index)]. *)
Definition Iterator_new {b} (containerIt : ContainerIterator) (index : Z)
  : Iterator b :=
  mkIterator (mkResult index containerIt) containerIt index.

(** [Iterator& operator++()], statement by statement; the result is the
    new state of [*this]. *)
Definition operator_incr {b} (this : Iterator b) : Iterator b :=
  let this1 :=                             (* ++_containerIt; *)
    mkIterator (_enumeratedValue this) (iter_incr (_containerIt this))
               (_index this) in
  let this2 :=                             (* ++_index; *)
    mkIterator (_enumeratedValue this1) (_containerIt this1)
               (SizeT.incr (_index this1)) in
  let this3 :=                             (* _enumeratedValue.index = _index; *)
    mkIterator (set_index (_enumeratedValue this2) (_index this2))
               (_containerIt this2) (_index this2) in
  let this4 :=                             (* _enumeratedValue.value = _containerIt; *)
    mkIterator (set_value (_enumeratedValue this3) (_containerIt this3))
               (_containerIt this3) (_index this3) in
  this4.

(** [Iterator operator++(int)]: the returned copy and the new [*this]. *)
Definition operator_post_incr {b} (this : Iterator b)
  : Iterator b * Iterator b :=
  let tmp := this in
  (tmp, operator_incr this).

(** [bool operator==(const Iterator& other) const]. *)
Definition operator_eq {b} (this other : Iterator b) : bool :=
  bool_decide (_containerIt this = _containerIt other).

(** [bool operator!=(const Iterator& other) const]. *)
Definition operator_ne {b} (this other : Iterator b) : bool :=
  negb (operator_eq this other).

(** [auto& operator*()]: a non-const member function; the value of the
    result object it refers to, and the state of [*this] afterwards. *)
Definition operator_star {b} (this : Iterator b)
  : EnumeratedIteratorResult b * Iterator b :=
  (_enumeratedValue this, this).

(** [class Enumerator]: the reference [_container]. *)
Record Enumerator (b : Binding) : Type := mkEnumerator {
  _container : loc
}.
Arguments mkEnumerator {b} _.
Arguments _container {b} _.

(** [enumerate(Container& container)]. *)
Definition enumerate (container : loc) : Enumerator MutableBinding :=
  mkEnumerator container.

(** [enumerate(const Container& container)]. *)
Definition enumerate_const (container : loc) : Enumerator ReadOnlyBinding :=
  mkEnumerator container.

(** A cursor is in sync when its result object shows the cursor's own
    counter and container iterator. *)
Definition in_sync {b} (it : Iterator b) : Prop :=
  index (_enumeratedValue it) = _index it
  ∧ value (_enumeratedValue it) = _containerIt it.

(** Cursor objects with an identity: a store of [Iterator] objects by
    address.  A reference to the member [_enumeratedValue] of the object at
    [p] is represented by [p] itself. *)
Abbreviation Cursors b := (gmap positive (Iterator b)).

(** [++*p]. *)
Definition obj_incr {b} (p : loc) (s : Cursors b) : option (Cursors b) :=
  this ← s !! p; Some (<[p := operator_incr this]> s).

(** [**p]: the reference returned and the store afterwards. *)
Definition obj_star {b} (p : loc) (s : Cursors b)
  : option (loc * Cursors b) :=
  this ← s !! p; Some (p, <[p := (operator_star this).2]> s).

(** Reading the result object a reference designates. *)
Definition read_result {b} (s : Cursors b) (r : loc)
  : option (EnumeratedIteratorResult b) :=
  this ← s !! r; Some ((operator_star this).1).

(** The positions [0, 1, ..., n-1]. *)
Definition positions (n : nat) : list Z := Z.of_nat <$> seq 0 n.

Section WithValues.

Context {V : Type}.

(** [c.begin()], [c.end()], [c.size()] for the container behind a
    reference; [None] for a dangling reference. *)
Definition container_begin (h : Heap V) (l : loc)
  : option ContainerIterator :=
  _ ← h !! l; Some (mkContainerIterator l 0).

Definition container_end (h : Heap V) (l : loc) : option ContainerIterator :=
  c ← h !! l; Some (mkContainerIterator l (length c)).

(** A container never holds more than [SizeT.MAX] elements, so [size()]
    is the number of elements; the results that depend on this bound
    state it. *)
Definition container_size (h : Heap V) (l : loc) : option Z :=
  c ← h !! l; Some (Z.of_nat (length c)).

(** [c[i]], reading the container directly. *)
Definition container_at (h : Heap V) (l : loc) (i : nat) : option V :=
  c ← h !! l; c !! i.

(** Reading [*it]; [None] when [it] does not designate an element. *)
Definition iter_deref (h : Heap V) (it : ContainerIterator) : option V :=
  c ← h !! it_container it; c !! it_offset it.

(** [*it = v]; [None] when [it] does not designate an element. *)
Definition iter_assign (h : Heap V) (it : ContainerIterator) (v : V)
  : option (Heap V) :=
  c ← h !! it_container it;
  if decide (it_offset it < length c)%nat
  then Some (<[it_container it := <[it_offset it := v]> c]> h)
  else None.

(** [get<1>]: the branch [Index == 1] returns [*enumeratedValue.value];
    this is the value read through the returned reference. *)
Definition get_1 {b} (h : Heap V)
  (enumeratedValue : EnumeratedIteratorResult b) : option V :=
  iter_deref h (value enumeratedValue).

(** Assigning through the [auto&] that the non-const overload of [get<1>]
    returns.  Only results of the mutable instantiation admit it. *)
Definition get_1_assign (h : Heap V)
  (enumeratedValue : EnumeratedIteratorResult MutableBinding) (v : V)
  : option (Heap V) :=
  iter_assign h (value enumeratedValue) v.

(** What a caller sees of a result: the position and the element. *)
Definition observe {b} (h : Heap V) (r : EnumeratedIteratorResult b)
  : option (Z * V) :=
  v ← get_1 h r; Some (get_0 r, v).

(** The same observation by member name: [r.index] and [*r.value]. *)
Definition observe_by_name {b} (h : Heap V) (r : EnumeratedIteratorResult b)
  : option (Z * V) :=
  v ← iter_deref h (value r); Some (index r, v).

(** [Iterator begin()]. *)
Definition Enumerator_begin {b} (h : Heap V) (this : Enumerator b)
  : option (Iterator b) :=
  first ← container_begin h (_container this);
  Some (Iterator_new first 0).

(** [Iterator end()]. *)
Definition Enumerator_end {b} (h : Heap V) (this : Enumerator b)
  : option (Iterator b) :=
  last ← container_end h (_container this);
  n ← container_size h (_container this);
  Some (Iterator_new last n).

(** The body of a range-based [for]: it receives the result the cursor
    refers to, the store and the caller's own variables. *)
Definition Body (b : Binding) (U : Type) : Type :=
  EnumeratedIteratorResult b → Heap V → U → option (Heap V * U).

(** [for (; it != e; ++it) { auto&& [index, value] = *it; body }].  [None]
    when the fuel runs out or the body has no defined behaviour. *)
Fixpoint for_loop {b U} (fuel : nat) (body : Body b U)
  (it e : Iterator b) (h : Heap V) (u : U) : option (Heap V * U) :=
  match fuel with
  | O => None
  | S fuel' =>
      if operator_ne it e then
        let '(r, it1) := operator_star it in
        '(h', u') ← body r h u;
        for_loop fuel' body (operator_incr it1) e h' u'
      else Some (h, u)
  end.

(** [for (... : range) body]: [begin()] and [end()] are evaluated once. *)
Definition range_for {b U} (fuel : nat) (range : Enumerator b)
  (body : Body b U) (h : Heap V) (u : U) : option (Heap V * U) :=
  it ← Enumerator_begin h range;
  e ← Enumerator_end h range;
  for_loop fuel body it e h u.

(** A body that only reads: [const auto& [index, value]] followed by
    [u = visit(index, value, u)]. *)
Definition const_body {b U} (visit : Z → V → U → U) : Body b U :=
  fun r h u => v ← get_1 h r; Some (h, visit (get_0 r) v u).

(** A body that writes the element: [auto& [index, value]] followed by
    [value = ...], the new value and the caller's variables computed by
    [upd] from the position, the old value and the variables. *)
Definition mut_body {U} (upd : Z → V → U → V * U) : Body MutableBinding U :=
  fun r h u =>
    v ← get_1 h r;
    let '(v', u') := upd (get_0 r) v u in
    h' ← get_1_assign h r v';
    Some (h', u').

(** The visitor that records every observed pair, in order. *)
Definition record_pair (i : Z) (v : V) (log : list (Z * V))
  : list (Z * V) :=
  log ++ [(i, v)].

(** The update that stores [f index] and records the position. *)
Definition store_and_log (f : Z → V) (i : Z) (_ : V) (log : list Z)
  : V * list Z :=
  (f i, log ++ [i]).

(** What element-by-element updating does to a stretch of a container
    whose first element has position [i]. *)
Fixpoint run_upd {U} (upd : Z → V → U → V * U) (i : Z) (c : list V) (u : U)
  : list V * U :=
  match c with
  | [] => ([], u)
  | v :: c' =>
      let '(v', u1) := upd i v u in
      let '(c'', u2) := run_upd upd (i + 1) c' u1 in
      (v' :: c'', u2)
  end.

(** A body behaves like [upd] on the container at [l] when, run at any
    element of it, it replaces that element by what [upd] computes and
    touches nothing else. *)
Definition body_acts_as {b U} (l : loc) (body : Body b U)
  (upd : Z → V → U → V * U) : Prop :=
  ∀ (h : Heap V) (pre : list V) (v : V) (suf : list V) (u : U),
    h !! l = Some (pre ++ v :: suf) →
    body (mkResult (Z.of_nat (length pre))
                   (mkContainerIterator l (length pre))) h u
    = Some (<[l := pre ++ (upd (Z.of_nat (length pre)) v u).1 :: suf]> h,
            (upd (Z.of_nat (length pre)) v u).2).

End WithValues.

End Enum.

(* ===================================================================== *)
(** ** The test case ["enumerate"] *)
(* ===================================================================== *)

Module Tests.

Import Enum.

(** The address of the one container each section declares. *)
Definition container : loc := 1%positive.

Definition arrSize : nat := 10.

(** [std::vector<int> vec(arrSize)], [const std::array<int, 10> arr{}] and
    [arr.fill(0)] all leave ten zeros. *)
Definition zeros : Heap Z := {[ container := replicate arrSize 0 ]}.

(** The variables of the first two sections: [expectedIndex] and whether
    every [REQUIRE] so far held. *)
Record Expect : Type := mkExpect {
  expectedIndex : Z;
  passed : bool
}.

(** [REQUIRE(index == expectedIndex); expectedIndex++;] *)
Definition require_index (index : Z) (_ : Z) (u : Expect) : Expect :=
  mkExpect (SizeT.incr (expectedIndex u))
           (passed u && (index =? expectedIndex u)).

(** SECTION ["const auto&, non-const vector"]. *)
Definition section_const_ref_vector (fuel : nat)
  : option (Heap Z * Expect) :=
  range_for fuel (enumerate container) (const_body require_index)
            zeros (mkExpect 0 true).

(** SECTION ["const auto&, const array"]. *)
Definition section_const_ref_const_array (fuel : nat)
  : option (Heap Z * Expect) :=
  range_for fuel (enumerate_const container) (const_body require_index)
            zeros (mkExpect 0 true).

(** [value = static_cast<int>(index);] *)
Definition set_to_index (index : Z) (_ : Z) (u : unit) : Z * unit :=
  (static_cast_int index, u).

(** [REQUIRE(value == index);] *)
Definition require_value_eq_index (index : Z) (value : Z) (ok : bool)
  : bool :=
  ok && (int_to_size_t value =? index).

(** SECTION ["auto&, non-const array"]: the writing loop, then the
    checking loop over [enumerate(arr)]. *)
Definition section_ref_array (fuel : nat) : option (Heap Z * bool) :=
  '(h, _) ← range_for fuel (enumerate container) (mut_body set_to_index)
                      zeros ();
  range_for fuel (enumerate container) (const_body require_value_eq_index)
            h true.

(** The scenario of the third section with the second loop going through
    the read-only entry point and recording what it observes. *)
Definition write_then_enumerate_read_only (fuel : nat)
  : option (Heap Z * list (Z * Z)) :=
  '(h, _) ← range_for fuel (enumerate container) (mut_body set_to_index)
                      zeros ();
  range_for fuel (enumerate_const container) (const_body record_pair) h [].

(** The scenario of the second section, recording what is observed. *)
Definition enumerate_read_only (fuel : nat)
  : option (Heap Z * list (Z * Z)) :=
  range_for fuel (enumerate_const container) (const_body record_pair)
            zeros [].

(** A cursor on the first element whose result object the caller has
    overwritten by member name, [auto& r = *it; r.index = 42; r.value = ...], and
    a store holding just that cursor object. *)
Definition overwritten_cursor : Iterator MutableBinding :=
  mkIterator (mkResult 42 (mkContainerIterator 9 9))
             (mkContainerIterator container 0) 0.

Definition cursor_address : loc := 5%positive.

Definition cursor_store : Cursors MutableBinding :=
  {[ cursor_address := overwritten_cursor ]}.

End Tests.

(* ===================================================================== *)
(** ** Facts about [size_t] *)
(* ===================================================================== *)

Lemma wrap_small z : 0 <= z < SizeT.MODULUS -> SizeT.wrap z = z.
Proof. intros Hz. unfold SizeT.wrap. now apply Z.mod_small. Qed.

Lemma incr_small i : 0 <= i < SizeT.MAX -> SizeT.incr i = i + 1.
Proof.
  intros Hi. unfold SizeT.incr. apply wrap_small. unfold SizeT.MAX in Hi. lia.
Qed.

Lemma incr_of_nat (n : nat) :
  Z.of_nat n < SizeT.MAX -> SizeT.incr (Z.of_nat n) = Z.of_nat (S n).
Proof. intros Hn. rewrite incr_small by lia. lia. Qed.

(* ===================================================================== *)
(** ** Running the tests *)
(* ===================================================================== *)

Example section_const_ref_vector_passes :
  Tests.section_const_ref_vector 11 = Some (Tests.zeros, Tests.mkExpect 10 true).
Proof. vm_compute. reflexivity. Qed.

Example section_const_ref_const_array_passes :
  Tests.section_const_ref_const_array 11
  = Some (Tests.zeros, Tests.mkExpect 10 true).
Proof. vm_compute. reflexivity. Qed.

Example section_ref_array_passes :
  Tests.section_ref_array 11
  = Some ({[ Tests.container := [0; 1; 2; 3; 4; 5; 6; 7; 8; 9] ]}, true).
Proof. vm_compute. reflexivity. Qed.

Example section_out_of_fuel : Tests.section_ref_array 10 = None.
Proof. vm_compute. reflexivity. Qed.

(** The counter wraps like any [size_t]. *)
Example incr_wraps : SizeT.incr SizeT.MAX = 0.
Proof. reflexivity. Qed.

(** Post-increment hands back the cursor as it was and advances [*this]. *)
Example operator_post_incr_returns_old :
  Enum.operator_post_incr Tests.overwritten_cursor
  = (Tests.overwritten_cursor,
     Enum.Iterator_new (Enum.mkContainerIterator Tests.container 1) 1).
Proof. reflexivity. Qed.

(* ===================================================================== *)
(** ** The cursor *)
(* ===================================================================== *)

Section Cursor.

Import Enum.

Context {b : Binding}.

Lemma Iterator_new_in_sync c i : in_sync (Iterator_new (b:=b) c i).
Proof. split; reflexivity. Qed.

(** One advance, seen from outside: both counters move by one and the
    result object is overwritten with them. *)
Lemma operator_incr_unfold (this : Iterator b) :
  operator_incr this
  = Iterator_new (iter_incr (_containerIt this)) (SizeT.incr (_index this)).
Proof. reflexivity. Qed.

Lemma operator_incr_in_sync (this : Iterator b) :
  in_sync (operator_incr this).
Proof. rewrite operator_incr_unfold. apply Iterator_new_in_sync. Qed.

Lemma operator_eq_spec (x y : Iterator b) :
  operator_eq x y = true ↔ _containerIt x = _containerIt y.
Proof. unfold operator_eq. apply bool_decide_eq_true. Qed.

Lemma operator_ne_offsets l (m n : nat) (i j : Z) :
  m ≠ n →
  operator_ne (Iterator_new (b:=b) (mkContainerIterator l m) i)
              (Iterator_new (mkContainerIterator l n) j) = true.
Proof.
  intros Hmn. unfold operator_ne, operator_eq. simpl.
  rewrite bool_decide_eq_false_2; [reflexivity | congruence].
Qed.

Lemma operator_ne_same c (i j : Z) :
  operator_ne (Iterator_new (b:=b) c i) (Iterator_new c j) = false.
Proof.
  unfold operator_ne, operator_eq. simpl.
  rewrite bool_decide_eq_true_2; reflexivity.
Qed.

End Cursor.

(* ===================================================================== *)
(** ** The loop *)
(* ===================================================================== *)

Section Loop.

Import Enum.

Context {V U : Type} {b : Binding}.

Lemma run_upd_cons (upd : Z → V → U → V * U) i v c u :
  run_upd upd i (v :: c) u
  = ((upd i v u).1 :: (run_upd upd (i + 1) c (upd i v u).2).1,
     (run_upd upd (i + 1) c (upd i v u).2).2).
Proof.
  simpl. destruct (upd i v u) as [v' u1]. simpl.
  destruct (run_upd upd (i + 1) c u1) as [c' u2]. reflexivity.
Qed.

(** The loop from the cursor standing after [pre] to the end cursor. *)
Lemma for_loop_from l (body : Body b U) upd :
  body_acts_as l body upd →
  ∀ (suf pre : list V) (h : Heap V) (u : U) (fuel n : nat) (n_end : Z),
    h !! l = Some (pre ++ suf) →
    n = (length pre + length suf)%nat →
    Z.of_nat n <= SizeT.MAX →
    (length suf < fuel)%nat →
    for_loop fuel body
      (Iterator_new (mkContainerIterator l (length pre))
                    (Z.of_nat (length pre)))
      (Iterator_new (mkContainerIterator l n) n_end) h u
    = Some (<[l := pre ++ (run_upd upd (Z.of_nat (length pre)) suf u).1]> h,
            (run_upd upd (Z.of_nat (length pre)) suf u).2).
Proof.
  intros Hbody suf.
  induction suf as [|v suf IH]; intros pre h u fuel n n_end Hl Hn Hmax Hfuel.
  - destruct fuel as [|fuel]; [simpl in Hfuel; lia|].
    simpl in Hn. replace n with (length pre) by lia.
    cbn [for_loop]. rewrite operator_ne_same. cbn [run_upd fst snd].
    rewrite insert_id; [reflexivity | exact Hl].
  - destruct fuel as [|fuel]; [simpl in Hfuel; lia|].
    simpl in Hn, Hfuel.
    cbn [for_loop]. rewrite operator_ne_offsets by lia.
    cbn [operator_star Iterator_new _enumeratedValue].
    rewrite (Hbody h pre v suf u Hl). cbn [mbind option_bind].
    rewrite operator_incr_unfold. unfold iter_incr.
    cbn [Iterator_new _containerIt _index it_container it_offset].
    rewrite incr_of_nat by lia.
    rewrite run_upd_cons. cbn [fst snd].
    set (v' := (upd (Z.of_nat (length pre)) v u).1).
    set (u1 := (upd (Z.of_nat (length pre)) v u).2).
    specialize (IH (pre ++ [v']) (<[l := pre ++ v' :: suf]> h) u1 fuel n n_end).
    rewrite length_app in IH. simpl in IH.
    replace (length pre + 1)%nat with (S (length pre)) in IH by lia.
    replace (Z.of_nat (length pre) + 1) with (Z.of_nat (S (length pre))) by lia.
    unfold Iterator_new in IH |- *.
    rewrite IH; [| | lia | exact Hmax | lia].
    + rewrite insert_insert_eq. rewrite <- app_assoc. reflexivity.
    + rewrite lookup_insert_eq. rewrite <- app_assoc. reflexivity.
Qed.

(** The whole range-based [for] over the container at [l]. *)
Lemma range_for_spec l (body : Body b U) upd (en : Enumerator b) :
  body_acts_as l body upd →
  _container en = l →
  ∀ (c : list V) (h : Heap V) (u : U) (fuel : nat),
    h !! l = Some c →
    Z.of_nat (length c) <= SizeT.MAX →
    (length c < fuel)%nat →
    range_for fuel en body h u
    = Some (<[l := (run_upd upd 0 c u).1]> h, (run_upd upd 0 c u).2).
Proof.
  intros Hbody Hen c h u fuel Hl Hmax Hfuel.
  unfold range_for, Enumerator_begin, Enumerator_end,
    container_begin, container_end, container_size.
  rewrite Hen, Hl. cbn [mbind option_bind].
  exact (for_loop_from l body upd Hbody c [] h u fuel (length c)
           (Z.of_nat (length c)) Hl eq_refl Hmax Hfuel).
Qed.

End Loop.

(* ===================================================================== *)
(** ** The two kinds of body *)
(* ===================================================================== *)

Section Bodies.

Import Enum.

Context {V U : Type}.

Lemma iter_deref_middle (h : Heap V) l pre v suf :
  h !! l = Some (pre ++ v :: suf) →
  iter_deref h (mkContainerIterator l (length pre)) = Some v.
Proof.
  intros Hl. unfold iter_deref. cbn [it_container it_offset].
  rewrite Hl. cbn [mbind option_bind]. apply list_lookup_middle. reflexivity.
Qed.

Lemma iter_assign_middle (h : Heap V) l pre v suf v' :
  h !! l = Some (pre ++ v :: suf) →
  iter_assign h (mkContainerIterator l (length pre)) v'
  = Some (<[l := pre ++ v' :: suf]> h).
Proof.
  intros Hl. unfold iter_assign. cbn [it_container it_offset].
  rewrite Hl. cbn [mbind option_bind].
  rewrite decide_True by (rewrite length_app; simpl; lia).
  replace (length pre) with (length pre + 0)%nat at 1 by lia.
  rewrite insert_app_r. reflexivity.
Qed.

(** A reading body leaves every element as it is. *)
Lemma const_body_acts {b} l (visit : Z → V → U → U) :
  body_acts_as l (const_body (b:=b) visit) (λ i v u, (v, visit i v u)).
Proof.
  intros h pre v suf u Hl. unfold const_body, get_1, get_0.
  cbn [index value fst snd].
  rewrite (iter_deref_middle h l pre v suf Hl). cbn [mbind option_bind].
  rewrite insert_id; [reflexivity | exact Hl].
Qed.

(** A writing body replaces the element by what it computes. *)
Lemma mut_body_acts l (upd : Z → V → U → V * U) :
  body_acts_as l (mut_body upd) upd.
Proof.
  intros h pre v suf u Hl. unfold mut_body, get_1, get_1_assign, get_0.
  cbn [index value].
  rewrite (iter_deref_middle h l pre v suf Hl). cbn [mbind option_bind].
  destruct (upd (Z.of_nat (length pre)) v u) as [v' u'].
  rewrite (iter_assign_middle h l pre v suf v' Hl). reflexivity.
Qed.

Lemma run_upd_reading (visit : Z → V → U → U) i c u :
  (run_upd (λ i v u, (v, visit i v u)) i c u).1 = c.
Proof.
  revert i u. induction c as [|v c IH]; intros i u; [reflexivity|].
  rewrite run_upd_cons. cbn [fst snd]. rewrite IH. reflexivity.
Qed.

End Bodies.

Section Logs.

Import Enum.

Context {V : Type}.

Lemma run_upd_record_pair (k : nat) (c : list V) (log : list (Z * V)) :
  run_upd (λ i v u, (v, record_pair i v u)) (Z.of_nat k) c log
  = (c, log ++ zip (Z.of_nat <$> seq k (length c)) c).
Proof.
  revert k log. induction c as [|v c IH]; intros k log.
  - simpl. rewrite app_nil_r. reflexivity.
  - rewrite run_upd_cons. cbn [fst snd].
    replace (Z.of_nat k + 1) with (Z.of_nat (S k)) by lia.
    rewrite IH. cbn [fst snd]. unfold record_pair.
    rewrite <- app_assoc. reflexivity.
Qed.

Lemma run_upd_store_and_log (f : Z → V) (k : nat) (c : list V)
  (log : list Z) :
  run_upd (store_and_log f) (Z.of_nat k) c log
  = (f <$> (Z.of_nat <$> seq k (length c)),
     log ++ (Z.of_nat <$> seq k (length c))).
Proof.
  revert k log. induction c as [|v c IH]; intros k log.
  - simpl. rewrite app_nil_r. reflexivity.
  - rewrite run_upd_cons. cbn [fst snd].
    replace (Z.of_nat k + 1) with (Z.of_nat (S k)) by lia.
    rewrite IH. cbn [fst snd]. unfold store_and_log. cbn [fst snd].
    rewrite <- app_assoc. reflexivity.
Qed.

Lemma positions_length n : length (positions n) = n.
Proof. unfold positions. rewrite length_fmap, length_seq. reflexivity. Qed.

Lemma positions_lookup n k :
  (k < n)%nat → positions n !! k = Some (Z.of_nat k).
Proof.
  intros Hk. unfold positions. rewrite list_lookup_fmap.
  rewrite lookup_seq_lt by exact Hk. reflexivity.
Qed.

End Logs.

(* ===================================================================== *)
(** ** Enumerating a container *)
(* ===================================================================== *)

Section Enumeration.

Import Enum.

(** C1.  Read-only binding: walking from [begin()] until the cursor equals
    [end()] and recording every pair gives the positions 0, 1, ..., N-1, in
    that order, each once, next to the elements of the container; the loop
    ends, with the container as it was. *)
Theorem read_only_positions_in_order {V : Type} (h : Heap V) (l : loc)
  (c : list V) (fuel : nat) :
  h !! l = Some c →
  Z.of_nat (length c) <= SizeT.MAX →
  (length c < fuel)%nat →
  ∃ log : list (Z * V),
    range_for fuel (enumerate_const l) (const_body record_pair) h []
    = Some (h, log)
    ∧ log.*1 = positions (length c)
    ∧ log.*2 = c
    ∧ length log = length c
    ∧ ∀ k : nat, (k < length c)%nat → log.*1 !! k = Some (Z.of_nat k).
Proof.
  intros Hl Hmax Hfuel.
  exists (zip (positions (length c)) c).
  assert (Hfst : (zip (positions (length c)) c).*1 = positions (length c)).
  { apply fst_zip. rewrite positions_length. lia. }
  split; [|split; [exact Hfst|split; [|split]]].
  - rewrite (range_for_spec l _ _ (enumerate_const l)
               (const_body_acts l record_pair) eq_refl c h [] fuel
               Hl Hmax Hfuel).
    change 0 with (Z.of_nat 0).
    rewrite run_upd_record_pair. cbn [fst snd app].
    rewrite insert_id; [reflexivity | exact Hl].
  - apply snd_zip. rewrite positions_length. lia.
  - rewrite length_zip, positions_length. lia.
  - intros k Hk. rewrite Hfst. apply positions_lookup. exact Hk.
Qed.

Lemma read_only_positions_in_order_witness :
  ∃ log : list (Z * Z),
    range_for 11 (enumerate_const Tests.container) (const_body record_pair)
              Tests.zeros []
    = Some (Tests.zeros, log)
    ∧ log.*1 = positions (length (replicate Tests.arrSize 0))
    ∧ log.*2 = replicate Tests.arrSize 0
    ∧ length log = length (replicate Tests.arrSize 0)
    ∧ ∀ k : nat, (k < length (replicate Tests.arrSize 0))%nat →
                 log.*1 !! k = Some (Z.of_nat k).
Proof.
  apply (read_only_positions_in_order Tests.zeros Tests.container
           (replicate Tests.arrSize 0) 11).
  - reflexivity.
  - vm_compute. discriminate.
  - vm_compute. lia.
Defined.

(** C2.  Mutable binding: the loop that assigns [f index] through every
    yielded element handle ends; the positions it saw are 0, ..., N-1; and
    the container, read directly afterwards, holds [f i] at every index
    [i], everything else in the store being untouched.  For ten zeros and
    [value = static_cast<int>(index)], a following read-only enumeration
    observes (0,0), (1,1), ..., (9,9). *)
Theorem mutable_write_read_back {V : Type} (h : Heap V) (l : loc)
  (c : list V) (f : Z → V) (fuel : nat) :
  h !! l = Some c →
  Z.of_nat (length c) <= SizeT.MAX →
  (length c < fuel)%nat →
  (∃ h' : Heap V,
     range_for fuel (enumerate l) (mut_body (store_and_log f)) h []
     = Some (h', positions (length c))
     ∧ h' = <[l := f <$> positions (length c)]> h
     ∧ (∀ i : nat, (i < length c)%nat →
                   container_at h' l i = Some (f (Z.of_nat i)))
     ∧ container_size h' l = Some (Z.of_nat (length c)))
  ∧ Tests.write_then_enumerate_read_only (S Tests.arrSize)
    = Some ({[ Tests.container := [0; 1; 2; 3; 4; 5; 6; 7; 8; 9] ]},
            [(0, 0); (1, 1); (2, 2); (3, 3); (4, 4);
             (5, 5); (6, 6); (7, 7); (8, 8); (9, 9)]).
Proof.
  intros Hl Hmax Hfuel. split; [|vm_compute; reflexivity].
  exists (<[l := f <$> positions (length c)]> h).
  split; [|split; [reflexivity|split]].
  - rewrite (range_for_spec l _ _ (enumerate l)
               (mut_body_acts l (store_and_log f)) eq_refl c h [] fuel
               Hl Hmax Hfuel).
    change 0 with (Z.of_nat 0).
    rewrite run_upd_store_and_log. reflexivity.
  - intros i Hi. unfold container_at. rewrite lookup_insert_eq.
    cbn [mbind option_bind]. rewrite list_lookup_fmap.
    rewrite positions_lookup by exact Hi. reflexivity.
  - unfold container_size. rewrite lookup_insert_eq.
    cbn [mbind option_bind]. rewrite length_fmap, positions_length.
    reflexivity.
Qed.

Lemma mutable_write_read_back_witness :
  (∃ h' : Heap Z,
     range_for 11 (enumerate Tests.container)
               (mut_body (store_and_log static_cast_int)) Tests.zeros []
     = Some (h', positions (length (replicate Tests.arrSize 0)))
     ∧ h' = <[Tests.container :=
                static_cast_int <$> positions (length (replicate Tests.arrSize 0))]>
              Tests.zeros
     ∧ (∀ i : nat, (i < length (replicate Tests.arrSize 0))%nat →
                   container_at h' Tests.container i
                   = Some (static_cast_int (Z.of_nat i)))
     ∧ container_size h' Tests.container
       = Some (Z.of_nat (length (replicate Tests.arrSize 0))))
  ∧ Tests.write_then_enumerate_read_only (S Tests.arrSize)
    = Some ({[ Tests.container := [0; 1; 2; 3; 4; 5; 6; 7; 8; 9] ]},
            [(0, 0); (1, 1); (2, 2); (3, 3); (4, 4);
             (5, 5); (6, 6); (7, 7); (8, 8); (9, 9)]).
Proof.
  apply (mutable_write_read_back Tests.zeros Tests.container
           (replicate Tests.arrSize 0) static_cast_int 11).
  - reflexivity.
  - vm_compute. discriminate.
  - vm_compute. lia.
Defined.

(** C9.  Read-only binding: whatever the loop body does with the pairs it
    is shown, the loop ends with the store, and so every element of the
    container, as it was.  For ten default-initialised integers the pairs
    observed are (0,0), (1,0), ..., (9,0): positions 0..9 ascending, values
    the initial zeros. *)
Theorem read_only_leaves_container_unchanged {V U : Type} (h : Heap V)
  (l : loc) (c : list V) (visit : Z → V → U → U) (u : U) (fuel : nat) :
  h !! l = Some c →
  Z.of_nat (length c) <= SizeT.MAX →
  (length c < fuel)%nat →
  (∃ u' : U,
     range_for fuel (enumerate_const l) (const_body visit) h u
     = Some (h, u'))
  ∧ Tests.enumerate_read_only (S Tests.arrSize)
    = Some (Tests.zeros,
            [(0, 0); (1, 0); (2, 0); (3, 0); (4, 0);
             (5, 0); (6, 0); (7, 0); (8, 0); (9, 0)]).
Proof.
  intros Hl Hmax Hfuel. split; [|vm_compute; reflexivity].
  eexists.
  rewrite (range_for_spec l _ _ (enumerate_const l)
             (const_body_acts l visit) eq_refl c h u fuel Hl Hmax Hfuel).
  rewrite run_upd_reading.
  rewrite insert_id; [reflexivity | exact Hl].
Qed.

Lemma read_only_leaves_container_unchanged_witness :
  (∃ u' : list (Z * Z),
     range_for 11 (enumerate_const Tests.container) (const_body record_pair)
               Tests.zeros []
     = Some (Tests.zeros, u'))
  ∧ Tests.enumerate_read_only (S Tests.arrSize)
    = Some (Tests.zeros,
            [(0, 0); (1, 0); (2, 0); (3, 0); (4, 0);
             (5, 0); (6, 0); (7, 0); (8, 0); (9, 0)]).
Proof.
  apply (read_only_leaves_container_unchanged Tests.zeros Tests.container
           (replicate Tests.arrSize 0) record_pair [] 11).
  - reflexivity.
  - vm_compute. discriminate.
  - vm_compute. lia.
Defined.

End Enumeration.

(* ===================================================================== *)
(** ** The adapter and its cursors *)
(* ===================================================================== *)

Section Adapter.

Import Enum.

(** C5.  Two cursors compare equal exactly when their container cursors
    are equal; [!=] is the negation; the position counters and the result
    objects take no part, so cursors on the same container position with
    different counters are equal. *)
Theorem cursor_equality_is_container_cursor_equality {b : Binding}
  (x y : Iterator b) :
  (operator_eq x y = true ↔ _containerIt x = _containerIt y)
  ∧ operator_ne x y = negb (operator_eq x y)
  ∧ (∀ (c : ContainerIterator) (i j : Z),
       operator_eq (Iterator_new (b:=b) c i) (Iterator_new c j) = true)
  ∧ operator_eq (Iterator_new (b:=b) (mkContainerIterator 1 3) 0)
                (Iterator_new (mkContainerIterator 1 3) 7) = true
  ∧ operator_eq (Iterator_new (b:=b) (mkContainerIterator 1 3) 3)
                (Iterator_new (mkContainerIterator 1 4) 3) = false.
Proof.
  split; [apply operator_eq_spec|].
  split; [reflexivity|].
  split; [|split; reflexivity].
  intros c i j. apply operator_eq_spec. reflexivity.
Qed.

(** C6.  Over an empty container [begin()] and [end()] compare equal at
    once, and the loop ends without running its body a single time,
    whatever the body is: nothing is yielded. *)
Theorem empty_container_yields_nothing {V U : Type} {b : Binding}
  (h : Heap V) (en : Enumerator b) (body : Body b U) (u : U) (fuel : nat) :
  h !! _container en = Some [] →
  (0 < fuel)%nat →
  ∃ first last : Iterator b,
    Enumerator_begin h en = Some first
    ∧ Enumerator_end h en = Some last
    ∧ operator_eq first last = true
    ∧ operator_ne first last = false
    ∧ range_for fuel en body h u = Some (h, u)
    ∧ range_for fuel en (const_body record_pair) h [] = Some (h, []).
Proof.
  intros Hl Hfuel.
  exists (Iterator_new (mkContainerIterator (_container en) 0) 0),
         (Iterator_new (mkContainerIterator (_container en) 0) 0).
  unfold range_for, Enumerator_begin, Enumerator_end,
    container_begin, container_end, container_size.
  rewrite Hl. cbn [mbind option_bind length Z.of_nat].
  destruct fuel as [|fuel]; [lia|].
  cbn [for_loop]. rewrite !operator_ne_same.
  repeat split; try reflexivity.
  apply operator_eq_spec. reflexivity.
Qed.

Lemma empty_container_yields_nothing_witness :
  ∃ first last : Iterator MutableBinding,
    Enumerator_begin ({[ 1%positive := [] ]} : Heap Z) (enumerate 1)
    = Some first
    ∧ Enumerator_end ({[ 1%positive := [] ]} : Heap Z) (enumerate 1)
      = Some last
    ∧ operator_eq first last = true
    ∧ operator_ne first last = false
    ∧ range_for 1 (enumerate 1) (mut_body (store_and_log static_cast_int))
                ({[ 1%positive := [] ]} : Heap Z) [5]
      = Some ({[ 1%positive := [] ]}, [5])
    ∧ range_for 1 (enumerate 1) (const_body record_pair)
                ({[ 1%positive := [] ]} : Heap Z) []
      = Some ({[ 1%positive := [] ]}, []).
Proof.
  apply (empty_container_yields_nothing ({[ 1%positive := [] ]} : Heap Z)
           (enumerate 1) (mut_body (store_and_log static_cast_int)) [5] 1).
  - reflexivity.
  - lia.
Defined.

(** C7.  [begin()] gives a cursor on the container's first position with
    counter 0; [end()] gives a cursor on the one-past-last position with
    counter the number of elements; and dereferencing the fresh begin
    cursor of a non-empty container shows position 0 and the first
    element. *)
Theorem begin_end_cursors {V : Type} {b : Binding} (h : Heap V)
  (en : Enumerator b) (c : list V) :
  h !! _container en = Some c →
  ∃ first last : Iterator b,
    Enumerator_begin h en = Some first
    ∧ Enumerator_end h en = Some last
    ∧ container_begin h (_container en) = Some (_containerIt first)
    ∧ _containerIt first = mkContainerIterator (_container en) 0
    ∧ _index first = 0
    ∧ container_end h (_container en) = Some (_containerIt last)
    ∧ _containerIt last = mkContainerIterator (_container en) (length c)
    ∧ container_size h (_container en) = Some (_index last)
    ∧ _index last = Z.of_nat (length c)
    ∧ ∀ (v : V) (c' : list V),
        c = v :: c' →
        observe h (operator_star first).1 = Some (0, v)
        ∧ observe_by_name h (operator_star first).1 = Some (0, v).
Proof.
  intros Hl.
  exists (Iterator_new (mkContainerIterator (_container en) 0) 0),
         (Iterator_new (mkContainerIterator (_container en) (length c))
                       (Z.of_nat (length c))).
  unfold Enumerator_begin, Enumerator_end,
    container_begin, container_end, container_size.
  rewrite Hl. cbn [mbind option_bind].
  repeat (split; [reflexivity|]).
  intros v c' ->.
  unfold observe, observe_by_name, get_1, get_0, iter_deref.
  cbn. rewrite Hl. cbn. split; reflexivity.
Qed.

Lemma begin_end_cursors_witness :
  ∃ first last : Iterator ReadOnlyBinding,
    Enumerator_begin Tests.zeros (enumerate_const Tests.container)
    = Some first
    ∧ Enumerator_end Tests.zeros (enumerate_const Tests.container)
      = Some last
    ∧ container_begin Tests.zeros Tests.container = Some (_containerIt first)
    ∧ _containerIt first = mkContainerIterator Tests.container 0
    ∧ _index first = 0
    ∧ container_end Tests.zeros Tests.container = Some (_containerIt last)
    ∧ _containerIt last
      = mkContainerIterator Tests.container
                            (length (replicate Tests.arrSize 0))
    ∧ container_size Tests.zeros Tests.container = Some (_index last)
    ∧ _index last = Z.of_nat (length (replicate Tests.arrSize 0))
    ∧ ∀ (v : Z) (c' : list Z),
        replicate Tests.arrSize 0 = v :: c' →
        observe Tests.zeros (operator_star first).1 = Some (0, v)
        ∧ observe_by_name Tests.zeros (operator_star first).1 = Some (0, v).
Proof.
  apply (begin_end_cursors Tests.zeros (enumerate_const Tests.container)
           (replicate Tests.arrSize 0)).
  reflexivity.
Defined.

(** C8.  Dereferencing a cursor that stands on an element twice in a row
    shows the same position and the same element both times, namely the
    cursor's own, and leaves the cursor as it was. *)
Theorem current_idempotent {V : Type} {b : Binding} (h : Heap V)
  (it : Iterator b) (v : V) :
  in_sync it →
  iter_deref h (_containerIt it) = Some v →
  observe h (operator_star it).1 = Some (_index it, v)
  ∧ observe h (operator_star (operator_star it).2).1
    = observe h (operator_star it).1
  ∧ (operator_star (operator_star it).2).1 = (operator_star it).1
  ∧ (operator_star (operator_star it).2).2 = it.
Proof.
  intros [Hi Hv] Hd.
  cbn [operator_star fst snd].
  repeat split.
  unfold observe, get_1, get_0. rewrite Hv, Hd, Hi. reflexivity.
Qed.

Lemma current_idempotent_witness :
  observe Tests.zeros
    (operator_star
       (Iterator_new (b:=MutableBinding)
          (mkContainerIterator Tests.container 0) 0)).1
  = Some (0, 0)
  ∧ observe Tests.zeros
      (operator_star
         (operator_star
            (Iterator_new (b:=MutableBinding)
               (mkContainerIterator Tests.container 0) 0)).2).1
    = observe Tests.zeros
        (operator_star
           (Iterator_new (b:=MutableBinding)
              (mkContainerIterator Tests.container 0) 0)).1
  ∧ (operator_star
       (operator_star
          (Iterator_new (b:=MutableBinding)
             (mkContainerIterator Tests.container 0) 0)).2).1
    = (operator_star
         (Iterator_new (b:=MutableBinding)
            (mkContainerIterator Tests.container 0) 0)).1
  ∧ (operator_star
       (operator_star
          (Iterator_new (b:=MutableBinding)
             (mkContainerIterator Tests.container 0) 0)).2).2
    = Iterator_new (mkContainerIterator Tests.container 0) 0.
Proof.
  apply (current_idempotent Tests.zeros
           (Iterator_new (mkContainerIterator Tests.container 0) 0) 0).
  - split; reflexivity.
  - reflexivity.
Defined.

End Adapter.

(* ===================================================================== *)
(** ** The embedded result object *)
(* ===================================================================== *)

Section EmbeddedResult.

Import Enum.

(** C10.  The result object embedded in a cursor shows the cursor's own
    counter and container iterator right after [begin()] and [end()]
    construct it and after every [operator++], whatever it showed before.
    An advance of the cursor object at address [p] changes that object and
    no other, creates none, and the reference [operator*] returns is the
    same before and after: the one embedded result is overwritten. *)
Theorem result_kept_in_sync_in_place {V : Type} {b : Binding} (h : Heap V)
  (en : Enumerator b) (c : list V) (s : Cursors b) (p : loc)
  (this : Iterator b) :
  h !! _container en = Some c →
  s !! p = Some this →
  (∃ first last : Iterator b,
     Enumerator_begin h en = Some first
     ∧ Enumerator_end h en = Some last
     ∧ in_sync first ∧ in_sync last)
  ∧ in_sync (operator_incr this)
  ∧ _index (operator_incr this) = SizeT.incr (_index this)
  ∧ _containerIt (operator_incr this) = iter_incr (_containerIt this)
  ∧ ∃ s' : Cursors b,
      obj_incr p s = Some s'
      ∧ dom s' = dom s
      ∧ (∀ q : loc, q ≠ p → s' !! q = s !! q)
      ∧ s' !! p = Some (operator_incr this)
      ∧ obj_star p s = Some (p, s)
      ∧ obj_star p s' = Some (p, s')
      ∧ read_result s p = Some (_enumeratedValue this)
      ∧ read_result s' p
        = Some (mkResult (SizeT.incr (_index this))
                         (iter_incr (_containerIt this))).
Proof.
  intros Hl Hp.
  split.
  { unfold Enumerator_begin, Enumerator_end,
      container_begin, container_end, container_size.
    rewrite Hl. cbn [mbind option_bind].
    eexists _, _. split; [reflexivity|]. split; [reflexivity|].
    split; apply Iterator_new_in_sync. }
  split; [apply operator_incr_in_sync|].
  split; [reflexivity|]. split; [reflexivity|].
  exists (<[p := operator_incr this]> s).
  assert (Hp' : <[p := operator_incr this]> s !! p = Some (operator_incr this))
    by apply lookup_insert_eq.
  split; [unfold obj_incr; rewrite Hp; reflexivity|].
  split.
  { apply dom_insert_lookup_L. rewrite Hp. eauto. }
  split; [intros q Hq; apply lookup_insert_ne; congruence|].
  split; [exact Hp'|].
  split.
  { unfold obj_star. rewrite Hp. cbn [mbind option_bind operator_star snd].
    rewrite insert_id; [reflexivity | exact Hp]. }
  split.
  { unfold obj_star. rewrite Hp'. cbn [mbind option_bind operator_star snd].
    rewrite insert_id; [reflexivity | exact Hp']. }
  split.
  { unfold read_result. rewrite Hp. reflexivity. }
  unfold read_result. rewrite Hp'. reflexivity.
Qed.

Lemma result_kept_in_sync_in_place_witness :
  (∃ first last : Iterator MutableBinding,
     Enumerator_begin Tests.zeros (enumerate Tests.container) = Some first
     ∧ Enumerator_end Tests.zeros (enumerate Tests.container) = Some last
     ∧ in_sync first ∧ in_sync last)
  ∧ in_sync (operator_incr Tests.overwritten_cursor)
  ∧ _index (operator_incr Tests.overwritten_cursor)
    = SizeT.incr (_index Tests.overwritten_cursor)
  ∧ _containerIt (operator_incr Tests.overwritten_cursor)
    = iter_incr (_containerIt Tests.overwritten_cursor)
  ∧ ∃ s' : Cursors MutableBinding,
      obj_incr Tests.cursor_address Tests.cursor_store = Some s'
      ∧ dom s' = dom Tests.cursor_store
      ∧ (∀ q : loc, q ≠ Tests.cursor_address →
                    s' !! q = Tests.cursor_store !! q)
      ∧ s' !! Tests.cursor_address
        = Some (operator_incr Tests.overwritten_cursor)
      ∧ obj_star Tests.cursor_address Tests.cursor_store
        = Some (Tests.cursor_address, Tests.cursor_store)
      ∧ obj_star Tests.cursor_address s' = Some (Tests.cursor_address, s')
      ∧ read_result Tests.cursor_store Tests.cursor_address
        = Some (_enumeratedValue Tests.overwritten_cursor)
      ∧ read_result s' Tests.cursor_address
        = Some (mkResult (SizeT.incr (_index Tests.overwritten_cursor))
                         (iter_incr (_containerIt Tests.overwritten_cursor))).
Proof.
  apply (result_kept_in_sync_in_place Tests.zeros
           (enumerate Tests.container) (replicate Tests.arrSize 0)
           Tests.cursor_store Tests.cursor_address Tests.overwritten_cursor).
  - reflexivity.
  - reflexivity.
Defined.

End EmbeddedResult.

(* ===================================================================== *)
(** ** What the types allow *)
(* ===================================================================== *)

Section Typing.

Import Enum.

(** An overwritten result object disagrees with its cursor until the next
    advance. *)
Example overwritten_cursor_out_of_sync :
  get_0 (operator_star Tests.overwritten_cursor).1 = 42
  ∧ _index Tests.overwritten_cursor = 0
  ∧ ¬ in_sync Tests.overwritten_cursor.
Proof.
  split; [reflexivity|]. split; [reflexivity|].
  intros [Hi _]. discriminate Hi.
Qed.

(** C3, as stated, fails: on a result that is not [const]-qualified, which
    is what [operator*] hands out, the member [index] reached by name is an
    assignable [size_t]. *)
Lemma position_assignable_by_name :
  ¬ Static.position_read_only MutableBinding (Static.ByName false).
Proof. unfold Static.position_read_only. cbn. discriminate. Qed.

(** C3, amended.  A result has exactly two fields: two data members,
    [tuple_size] 2, no [tuple_element] past index 1.  Field by field,
    [get<0>] and [get<1>] show what the members [index] and [*value] show.
    Field 0 is [const size_t] as a structured binding, under both bindings
    of the container and for every form of the declaration, and it is
    read-only by name and through [get<0>] on a [const] result. *)
Theorem result_fields_agree_position_const_when_destructured {V : Type}
  {b : Binding} (h : Heap V) (r : EnumeratedIteratorResult b)
  (d : Static.Decl) (bd : Binding) :
  length Static.data_members = 2%nat
  ∧ Static.tuple_size (Static.decl_E d (Static.result_args bd)) = Some 2%nat
  ∧ (∀ i : nat, (2 ≤ i)%nat →
       Static.binding_type d i (Static.result_args bd) = None
       ∧ ∀ q : bool, Static.get_type i q (Static.result_args bd) = None)
  ∧ get_0 r = index r
  ∧ get_1 h r = iter_deref h (value r)
  ∧ observe h r = observe_by_name h r
  ∧ Static.binding_type d 0 (Static.result_args bd)
    = Some (Static.mkCType true Static.size_t false)
  ∧ Static.position_read_only bd (Static.ByStructuredBinding d)
  ∧ Static.position_read_only bd (Static.ByName true)
  ∧ Static.position_read_only bd (Static.ByGet true).
Proof.
  split; [reflexivity|].
  split; [reflexivity|].
  split.
  { intros i Hi. destruct i as [|[|i]]; [lia | lia |].
    split; [destruct d; reflexivity | intros q; reflexivity]. }
  split; [reflexivity|].
  split; [reflexivity|].
  split; [reflexivity|].
  split; [destruct d; reflexivity|].
  split; [destruct d; reflexivity|].
  split; reflexivity.
Qed.

(** C4.  A [const] container selects the read-only overload, whose result
    carries a [const_iterator] and a [const] value type; and then the
    element is not assignable along any path: not as a structured binding
    of any form, not through [get<1>], not through the member [value].
    The rejection is a matter of types alone.  (Under the mutable overload
    the element bound by [auto&] is assignable.) *)
Theorem read_only_binding_rejects_writes (p : Static.AccessPath) :
  Static.enumerate_overload true = ReadOnlyBinding
  ∧ Static.IteratorType (Static.result_args (Static.enumerate_overload true))
    = Static.const_iterator
  ∧ Static.is_const
      (Static.ValueType (Static.result_args (Static.enumerate_overload true)))
    = true
  ∧ Static.element_read_only (Static.enumerate_overload true) p
  ∧ Static.assignable
      (Static.element_type (Static.ByStructuredBinding Static.auto_ref)
         (Static.result_args (Static.enumerate_overload false)))
    = true.
Proof.
  split; [reflexivity|]. split; [reflexivity|]. split; [reflexivity|].
  split; [|reflexivity].
  destruct p as [[|]|[|]|[| |]]; reflexivity.
Qed.

End Typing.

(* ===================================================================== *)
(** ** More about cursors *)
(* ===================================================================== *)

Section CursorWalk.

Import Enum.

Lemma incr_wrap (z : Z) : SizeT.incr (SizeT.wrap z) = SizeT.wrap (z + 1).
Proof.
  unfold SizeT.incr, SizeT.wrap. apply Zplus_mod_idemp_l.
Qed.

Lemma incr_ne (i : Z) : SizeT.incr i ≠ i.
Proof.
  unfold SizeT.incr, SizeT.wrap. intros Heq.
  assert (Hpos : 0 < SizeT.MODULUS) by reflexivity.
  assert (Hone : 1 < SizeT.MODULUS) by reflexivity.
  pose proof (Z.mod_pos_bound (i + 1) SizeT.MODULUS Hpos) as Hb.
  rewrite Heq in Hb.
  destruct (Z.eq_dec (i + 1) SizeT.MODULUS) as [He|Hne].
  - rewrite He, Z.mod_same in Heq by lia. lia.
  - rewrite Z.mod_small in Heq by lia. lia.
Qed.

(** After [k] advances from the begin cursor the container iterator stands
    [k] elements in, the counter is [k] modulo [2^64], so [k] itself while
    [k] fits a [size_t], the result object agrees with both, and the cursor
    equals an end cursor exactly when [k] is that cursor's offset. *)
Theorem cursor_after_advances {b : Binding} (l : loc) (k : nat) :
  Nat.iter k operator_incr (Iterator_new (b:=b) (mkContainerIterator l 0) 0)
  = Iterator_new (mkContainerIterator l k) (SizeT.wrap (Z.of_nat k))
  ∧ in_sync (Nat.iter k operator_incr
               (Iterator_new (b:=b) (mkContainerIterator l 0) 0))
  ∧ (Z.of_nat k <= SizeT.MAX →
     _index (Nat.iter k operator_incr
               (Iterator_new (b:=b) (mkContainerIterator l 0) 0))
     = Z.of_nat k)
  ∧ ∀ (n : nat) (j : Z),
      operator_eq
        (Nat.iter k operator_incr
           (Iterator_new (b:=b) (mkContainerIterator l 0) 0))
        (Iterator_new (mkContainerIterator l n) j) = true
      ↔ k = n.
Proof.
  assert (Hk : Nat.iter k operator_incr
                 (Iterator_new (b:=b) (mkContainerIterator l 0) 0)
               = Iterator_new (mkContainerIterator l k)
                              (SizeT.wrap (Z.of_nat k))).
  { induction k as [|k IH]; [reflexivity|].
    cbn [Nat.iter nat_rect]. change (nat_rect _ _ _ k) with
      (Nat.iter k operator_incr
         (Iterator_new (b:=b) (mkContainerIterator l 0) 0)).
    rewrite IH, operator_incr_unfold. unfold iter_incr.
    cbn [Iterator_new _containerIt _index it_container it_offset].
    rewrite incr_wrap.
    replace (Z.of_nat k + 1) with (Z.of_nat (S k)) by lia. reflexivity. }
  rewrite Hk. split; [reflexivity|].
  split; [apply Iterator_new_in_sync|].
  split.
  - intros Hmax. cbn [Iterator_new _index]. apply wrap_small.
    unfold SizeT.MAX in Hmax. lia.
  - intros n j. rewrite operator_eq_spec.
    cbn [Iterator_new _containerIt]. split; [intros [= ->]|intros ->];
      reflexivity.
Qed.

(** A copy and a reference part ways at an advance.  For a cursor in sync,
    [it++] hands back a cursor equal to the old one, still showing the old
    pair, while the result reached through a reference obtained from
    [*it] before the advance shows the next pair afterwards, and the two
    differ. *)
Theorem postfix_copy_keeps_pair_reference_moves_on {b : Binding}
  (s : Cursors b) (p : loc) (this : Iterator b) :
  s !! p = Some this →
  in_sync this →
  (operator_post_incr this).1 = this
  ∧ (operator_post_incr this).2 = operator_incr this
  ∧ operator_eq (operator_post_incr this).1 (operator_post_incr this).2
    = false
  ∧ ∃ s' : Cursors b,
      obj_incr p s = Some s'
      ∧ read_result s p
        = Some (operator_star (operator_post_incr this).1).1
      ∧ read_result s' p
        = Some (operator_star (operator_post_incr this).2).1
      ∧ read_result s' p ≠ read_result s p
      ∧ index (operator_star (operator_post_incr this).2).1
        = SizeT.incr (index (operator_star (operator_post_incr this).1).1).
Proof.
  intros Hp [Hi Hv].
  cbn [operator_post_incr fst snd].
  split; [reflexivity|]. split; [reflexivity|].
  split.
  { unfold operator_eq. rewrite operator_incr_unfold.
    cbn [Iterator_new _containerIt].
    apply bool_decide_eq_false_2. destruct (_containerIt this) as [l n].
    unfold iter_incr. cbn. intros [= Hn]. lia. }
  exists (<[p := operator_incr this]> s).
  split; [unfold obj_incr; rewrite Hp; reflexivity|].
  split; [unfold read_result; rewrite Hp; reflexivity|].
  split; [unfold read_result; rewrite lookup_insert_eq; reflexivity|].
  split.
  - unfold read_result. rewrite lookup_insert_eq, Hp.
    cbn [mbind option_bind operator_star fst].
    rewrite operator_incr_unfold. cbn [Iterator_new _enumeratedValue].
    intros [= Heq]. destruct (_enumeratedValue this) as [i v].
    cbn in Hi. injection Heq as Hidx _. rewrite <- Hi in Hidx.
    exact (incr_ne i Hidx).
  - cbn [operator_star fst]. rewrite operator_incr_unfold.
    cbn [Iterator_new _enumeratedValue index]. rewrite Hi. reflexivity.
Qed.

Lemma postfix_copy_keeps_pair_reference_moves_on_witness :
  (operator_post_incr
     (Iterator_new (b:=MutableBinding)
        (mkContainerIterator Tests.container 0) 0)).1
  = Iterator_new (mkContainerIterator Tests.container 0) 0
  ∧ (operator_post_incr
       (Iterator_new (b:=MutableBinding)
          (mkContainerIterator Tests.container 0) 0)).2
    = operator_incr
        (Iterator_new (mkContainerIterator Tests.container 0) 0)
  ∧ operator_eq
      (operator_post_incr
         (Iterator_new (b:=MutableBinding)
            (mkContainerIterator Tests.container 0) 0)).1
      (operator_post_incr
         (Iterator_new (b:=MutableBinding)
            (mkContainerIterator Tests.container 0) 0)).2
    = false
  ∧ ∃ s' : Cursors MutableBinding,
      obj_incr 7
        ({[ 7%positive :=
              Iterator_new (mkContainerIterator Tests.container 0) 0 ]})
      = Some s'
      ∧ read_result
          ({[ 7%positive :=
                Iterator_new (b:=MutableBinding)
                  (mkContainerIterator Tests.container 0) 0 ]}) 7
        = Some (operator_star
                  (operator_post_incr
                     (Iterator_new
                        (mkContainerIterator Tests.container 0) 0)).1).1
      ∧ read_result s' 7
        = Some (operator_star
                  (operator_post_incr
                     (Iterator_new
                        (mkContainerIterator Tests.container 0) 0)).2).1
      ∧ read_result s' 7
        ≠ read_result
            ({[ 7%positive :=
                  Iterator_new (b:=MutableBinding)
                    (mkContainerIterator Tests.container 0) 0 ]}) 7
      ∧ index (operator_star
                 (operator_post_incr
                    (Iterator_new (b:=MutableBinding)
                       (mkContainerIterator Tests.container 0) 0)).2).1
        = SizeT.incr
            (index (operator_star
                      (operator_post_incr
                         (Iterator_new (b:=MutableBinding)
                            (mkContainerIterator Tests.container 0)
                            0)).1).1).
Proof.
  apply (postfix_copy_keeps_pair_reference_moves_on
           ({[ 7%positive :=
                 Iterator_new (mkContainerIterator Tests.container 0) 0 ]})
           7%positive
           (Iterator_new (mkContainerIterator Tests.container 0) 0)).
  - reflexivity.
  - split; reflexivity.
Defined.



End CursorWalk.

(* ===================================================================== *)
(** ** More about loops *)
(* ===================================================================== *)

Section LoopLaws.

Import Enum.

Lemma run_upd_length {V U : Type} (upd : Z → V → U → V * U) i c u :
  length (run_upd upd i c u).1 = length c.
Proof.
  revert i u. induction c as [|v c IH]; intros i u; [reflexivity|].
  rewrite run_upd_cons. cbn [fst length]. rewrite IH. reflexivity.
Qed.

Lemma run_upd_reading_fold {V U : Type} (visit : Z → V → U → U) (k : nat)
  (c : list V) (u : U) :
  (run_upd (λ i v u, (v, visit i v u)) (Z.of_nat k) c u).2
  = fold_left (λ (u : U) (p : Z * V), visit p.1 p.2 u)
              (zip (Z.of_nat <$> seq k (length c)) c) u.
Proof.
  revert k u. induction c as [|v c IH]; intros k u; [reflexivity|].
  rewrite run_upd_cons. cbn [fst snd].
  replace (Z.of_nat k + 1) with (Z.of_nat (S k)) by lia.
  rewrite IH. reflexivity.
Qed.

Lemma run_upd_pointwise {V U : Type} (g : Z → V → V) (k : nat) (c : list V)
  (u : U) :
  run_upd (λ i v u, (g i v, u)) (Z.of_nat k) c u
  = (zip_with g (Z.of_nat <$> seq k (length c)) c, u).
Proof.
  revert k. induction c as [|v c IH]; intros k; [reflexivity|].
  rewrite run_upd_cons. cbn [fst snd].
  replace (Z.of_nat k + 1) with (Z.of_nat (S k)) by lia.
  rewrite IH. reflexivity.
Qed.

(** Under either binding, a loop whose body only reads is a left fold of
    the body over the pairs (0, c[0]), (1, c[1]), ..., (N-1, c[N-1]); it
    runs the body N times, ends, and leaves the store alone. *)
Theorem reading_loop_is_fold {V U : Type} {b : Binding} (h : Heap V)
  (en : Enumerator b) (c : list V) (visit : Z → V → U → U) (u : U)
  (fuel : nat) :
  h !! _container en = Some c →
  Z.of_nat (length c) <= SizeT.MAX →
  (length c < fuel)%nat →
  range_for fuel en (const_body visit) h u
  = Some (h, fold_left (λ (u : U) (p : Z * V), visit p.1 p.2 u)
                       (zip (positions (length c)) c) u).
Proof.
  intros Hl Hmax Hfuel.
  rewrite (range_for_spec (_container en) _ _ en
             (const_body_acts (_container en) visit) eq_refl c h u fuel
             Hl Hmax Hfuel).
  rewrite run_upd_reading. change 0 with (Z.of_nat 0).
  rewrite run_upd_reading_fold.
  rewrite insert_id; [reflexivity | exact Hl].
Qed.

Lemma reading_loop_is_fold_witness :
  range_for 11 (enumerate Tests.container)
            (const_body (λ i v (u : Z), u + i + v)) Tests.zeros 0
  = Some (Tests.zeros,
          fold_left (λ (u : Z) (p : Z * Z), u + p.1 + p.2)
                    (zip (positions (length (replicate Tests.arrSize 0)))
                         (replicate Tests.arrSize 0)) 0).
Proof.
  apply (reading_loop_is_fold Tests.zeros (enumerate Tests.container)
           (replicate Tests.arrSize 0) (λ i v (u : Z), u + i + v) 0 11).
  - reflexivity.
  - vm_compute. discriminate.
  - vm_compute. lia.
Defined.

(** The loop [for (auto& [index, value] : enumerate(c)) value = g(index,
    value);] is an indexed map in place: afterwards element [i] is
    [g i] of the old element [i]; the container has as many elements as
    before and every other container in the store is untouched. *)
Theorem writing_loop_is_indexed_map {V : Type} (h : Heap V) (l : loc)
  (c : list V) (g : Z → V → V) (fuel : nat) :
  h !! l = Some c →
  Z.of_nat (length c) <= SizeT.MAX →
  (length c < fuel)%nat →
  ∃ h' : Heap V,
    range_for fuel (enumerate l) (mut_body (λ i v (u : unit), (g i v, u)))
              h tt
    = Some (h', tt)
    ∧ h' !! l = Some (zip_with g (positions (length c)) c)
    ∧ (∀ (i : nat) (v : V),
         c !! i = Some v → container_at h' l i = Some (g (Z.of_nat i) v))
    ∧ container_size h' l = container_size h l
    ∧ ∀ l' : loc, l' ≠ l → h' !! l' = h !! l'.
Proof.
  intros Hl Hmax Hfuel.
  exists (<[l := zip_with g (positions (length c)) c]> h).
  split; [|split; [|split; [|split]]].
  - rewrite (range_for_spec l _ _ (enumerate l)
               (mut_body_acts l (λ i v (u : unit), (g i v, u))) eq_refl
               c h tt fuel Hl Hmax Hfuel).
    change 0 with (Z.of_nat 0). rewrite run_upd_pointwise. reflexivity.
  - apply lookup_insert_eq.
  - intros i v Hi. unfold container_at. rewrite lookup_insert_eq.
    cbn [mbind option_bind]. rewrite lookup_zip_with.
    rewrite positions_lookup by (apply lookup_lt_Some in Hi; exact Hi).
    cbn [mbind option_bind]. rewrite Hi. reflexivity.
  - unfold container_size. rewrite lookup_insert_eq, Hl.
    cbn [mbind option_bind]. rewrite length_zip_with_r_eq; [reflexivity|].
    rewrite positions_length. reflexivity.
  - intros l' Hl'. apply lookup_insert_ne. congruence.
Qed.

Lemma writing_loop_is_indexed_map_witness :
  ∃ h' : Heap Z,
    range_for 11 (enumerate Tests.container)
              (mut_body (λ i v (u : unit), (i * i + v, u))) Tests.zeros tt
    = Some (h', tt)
    ∧ h' !! Tests.container
      = Some (zip_with (λ i v, i * i + v)
                (positions (length (replicate Tests.arrSize 0)))
                (replicate Tests.arrSize 0))
    ∧ (∀ (i : nat) (v : Z),
         replicate Tests.arrSize 0 !! i = Some v →
         container_at h' Tests.container i
         = Some (Z.of_nat i * Z.of_nat i + v))
    ∧ container_size h' Tests.container
      = container_size Tests.zeros Tests.container
    ∧ ∀ l' : loc, l' ≠ Tests.container → h' !! l' = Tests.zeros !! l'.
Proof.
  apply (writing_loop_is_indexed_map Tests.zeros Tests.container
           (replicate Tests.arrSize 0) (λ i v, i * i + v) 11).
  - reflexivity.
  - vm_compute. discriminate.
  - vm_compute. lia.
Defined.

(** A write through the element handle of one result lands in the
    container itself: it succeeds whenever the handle designates an
    element, every result whose handle designates the same element then
    reads the new value, whichever binding it came from, and every other
    element reads as before. *)
Theorem element_write_reaches_every_alias {V : Type} {b : Binding}
  (h : Heap V) (r : EnumeratedIteratorResult MutableBinding)
  (r' : EnumeratedIteratorResult b) (old v : V) :
  get_1 h r = Some old →
  ∃ h' : Heap V,
    get_1_assign h r v = Some h'
    ∧ get_1 h' r = Some v
    ∧ (value r' = value r → get_1 h' r' = Some v)
    ∧ (value r' ≠ value r → get_1 h' r' = get_1 h r')
    ∧ ∀ l : loc, container_size h' l = container_size h l.
Proof.
  unfold get_1, get_1_assign, iter_deref, iter_assign, container_size.
  destruct (value r) as [l n]. cbn [it_container it_offset].
  destruct (h !! l) as [c|] eqn:Hl; [|discriminate].
  cbn [mbind option_bind]. intros Hn.
  pose proof (lookup_lt_Some _ _ _ Hn) as Hlt.
  rewrite decide_True by exact Hlt.
  exists (<[l := <[n := v]> c]> h).
  assert (Hself : <[l := <[n := v]> c]> h !! l ≫= (λ c0, c0 !! n) = Some v).
  { rewrite lookup_insert_eq. cbn [mbind option_bind].
    apply list_lookup_insert_eq. exact Hlt. }
  split; [reflexivity|]. split; [exact Hself|].
  split; [|split].
  - intros ->. exact Hself.
  - destruct (value r') as [l' n']. cbn [it_container it_offset].
    intros Hne. destruct (decide (l' = l)) as [->|Hl'].
    + rewrite lookup_insert_eq, Hl. cbn [mbind option_bind].
      apply list_lookup_insert_ne. congruence.
    + rewrite lookup_insert_ne by congruence. reflexivity.
  - intros l0. destruct (decide (l0 = l)) as [->|Hl0].
    + rewrite lookup_insert_eq, Hl. cbn [mbind option_bind].
      rewrite length_insert. reflexivity.
    + rewrite lookup_insert_ne by congruence. reflexivity.
Qed.

Lemma element_write_reaches_every_alias_witness :
  ∃ h' : Heap Z,
    get_1_assign Tests.zeros
      (mkResult 3 (mkContainerIterator Tests.container 3)) 8
    = Some h'
    ∧ get_1 h' (mkResult (b:=MutableBinding) 3
                  (mkContainerIterator Tests.container 3))
      = Some 8
    ∧ (value (mkResult (b:=ReadOnlyBinding) 0
                (mkContainerIterator Tests.container 3))
       = value (mkResult (b:=MutableBinding) 3
                  (mkContainerIterator Tests.container 3)) →
       get_1 h' (mkResult (b:=ReadOnlyBinding) 0
                   (mkContainerIterator Tests.container 3))
       = Some 8)
    ∧ (value (mkResult (b:=ReadOnlyBinding) 0
                (mkContainerIterator Tests.container 3))
       ≠ value (mkResult (b:=MutableBinding) 3
                  (mkContainerIterator Tests.container 3)) →
       get_1 h' (mkResult (b:=ReadOnlyBinding) 0
                   (mkContainerIterator Tests.container 3))
       = get_1 Tests.zeros
           (mkResult (b:=ReadOnlyBinding) 0
              (mkContainerIterator Tests.container 3)))
    ∧ ∀ l : loc,
        container_size h' l = container_size Tests.zeros l.
Proof.
  apply (element_write_reaches_every_alias Tests.zeros
           (mkResult 3 (mkContainerIterator Tests.container 3))
           (mkResult (b:=ReadOnlyBinding) 0
              (mkContainerIterator Tests.container 3)) 0 8).
  reflexivity.
Defined.

End LoopLaws.

(* ===================================================================== *)
(** ** The test bodies on every container *)
(* ===================================================================== *)

Section TestBodies.

Import Enum.

Lemma run_upd_require_index (k : nat) (c : list Z) (ok : bool) :
  Z.of_nat (k + length c) <= SizeT.MAX →
  (run_upd (λ i v u, (v, Tests.require_index i v u)) (Z.of_nat k) c
           (Tests.mkExpect (Z.of_nat k) ok)).2
  = Tests.mkExpect (Z.of_nat (k + length c)) ok.
Proof.
  revert k. induction c as [|v c IH]; intros k Hmax.
  - cbn [run_upd snd length]. rewrite Nat.add_0_r. reflexivity.
  - rewrite run_upd_cons. cbn [fst snd length] in *.
    unfold Tests.require_index at 2. cbn [Tests.expectedIndex Tests.passed].
    rewrite Z.eqb_refl, andb_true_r.
    rewrite incr_of_nat by lia.
    replace (Z.of_nat k + 1) with (Z.of_nat (S k)) by lia.
    rewrite IH by lia.
    replace (S k + length c)%nat with (k + S (length c))%nat by lia.
    reflexivity.
Qed.

(** The check of the first two test sections holds on every container and
    under either binding: [REQUIRE(index == expectedIndex)] never fails,
    and [expectedIndex] ends as the number of elements. *)
Theorem index_check_passes_on_every_container {b : Binding} (h : Heap Z)
  (en : Enumerator b) (c : list Z) (fuel : nat) :
  h !! _container en = Some c →
  Z.of_nat (length c) <= SizeT.MAX →
  (length c < fuel)%nat →
  range_for fuel en (const_body Tests.require_index) h (Tests.mkExpect 0 true)
  = Some (h, Tests.mkExpect (Z.of_nat (length c)) true).
Proof.
  intros Hl Hmax Hfuel.
  rewrite (range_for_spec (_container en) _ _ en
             (const_body_acts (_container en) Tests.require_index) eq_refl
             c h (Tests.mkExpect 0 true) fuel Hl Hmax Hfuel).
  rewrite run_upd_reading.
  rewrite insert_id by exact Hl.
  pose proof (run_upd_require_index 0 c true Hmax) as Hrun.
  change (0 + length c)%nat with (length c) in Hrun.
  change (Z.of_nat 0) with 0 in Hrun. rewrite Hrun. reflexivity.
Qed.

Lemma index_check_passes_on_every_container_witness :
  range_for 4 (enumerate_const 2)
            (const_body Tests.require_index)
            ({[ 2%positive := [7; -1; 5] ]} : Heap Z) (Tests.mkExpect 0 true)
  = Some ({[ 2%positive := [7; -1; 5] ]},
          Tests.mkExpect (Z.of_nat (length [7; -1; 5])) true).
Proof.
  apply (index_check_passes_on_every_container
           ({[ 2%positive := [7; -1; 5] ]} : Heap Z) (enumerate_const 2)
           [7; -1; 5] 4).
  - reflexivity.
  - vm_compute. discriminate.
  - vm_compute. lia.
Defined.

Lemma static_cast_int_small (i : Z) :
  0 <= i < 2 ^ 31 → static_cast_int i = i.
Proof.
  intros Hi. unfold static_cast_int.
  rewrite Z.mod_small by lia. lia.
Qed.

Lemma int_to_size_t_nonneg (i : Z) :
  0 <= i < 2 ^ 31 → int_to_size_t i = i.
Proof.
  intros Hi. unfold int_to_size_t. apply wrap_small.
  assert (2 ^ 31 < SizeT.MODULUS) by reflexivity. lia.
Qed.

Lemma run_upd_set_to_index (k : nat) (c : list Z) :
  Z.of_nat (k + length c) <= 2 ^ 31 →
  run_upd Tests.set_to_index (Z.of_nat k) c tt
  = (Z.of_nat <$> seq k (length c), tt).
Proof.
  revert k. induction c as [|v c IH]; intros k Hk; [reflexivity|].
  cbn [length] in Hk.
  rewrite run_upd_cons.
  change (Tests.set_to_index (Z.of_nat k) v ()).2 with tt.
  change (Tests.set_to_index (Z.of_nat k) v ()).1
    with (static_cast_int (Z.of_nat k)).
  replace (Z.of_nat k + 1) with (Z.of_nat (S k)) by lia.
  rewrite IH by lia. cbn [fst snd].
  rewrite static_cast_int_small by lia. reflexivity.
Qed.

Lemma run_upd_require_value (k n : nat) (ok : bool) :
  Z.of_nat (k + n) <= 2 ^ 31 →
  (run_upd (λ i v u, (v, Tests.require_value_eq_index i v u)) (Z.of_nat k)
           (Z.of_nat <$> seq k n) ok).2
  = ok.
Proof.
  revert k ok. induction n as [|n IH]; intros k ok Hk; [reflexivity|].
  cbn [seq fmap list_fmap]. rewrite run_upd_cons. cbn [fst snd].
  replace (Z.of_nat k + 1) with (Z.of_nat (S k)) by lia.
  change (list_fmap nat Z Z.of_nat (seq (S k) n))
    with (Z.of_nat <$> seq (S k) n).
  rewrite IH by lia.
  unfold Tests.require_value_eq_index.
  rewrite int_to_size_t_nonneg by lia.
  rewrite Z.eqb_refl. apply andb_true_r.
Qed.

(** The third test section on every container of at most [2^31]
    integers: after [value = static_cast<int>(index)] on every element the
    container holds 0, 1, ..., N-1 and [REQUIRE(value == index)] holds at
    every element.  The bound is needed: at index [2^31] the cast to [int]
    gives a negative value and the comparison with the index fails. *)
Theorem write_then_check_passes_up_to_int_max (h : Heap Z) (l : loc)
  (c : list Z) (fuel : nat) :
  h !! l = Some c →
  Z.of_nat (length c) <= 2 ^ 31 →
  (length c < fuel)%nat →
  (range_for fuel (enumerate l) (mut_body Tests.set_to_index) h tt
   ≫= λ '(h1, _),
       range_for fuel (enumerate l)
                 (const_body Tests.require_value_eq_index) h1 true)
  = Some (<[l := positions (length c)]> h, true)
  ∧ static_cast_int (2 ^ 31) = - 2 ^ 31
  ∧ Tests.require_value_eq_index (2 ^ 31) (static_cast_int (2 ^ 31)) true
    = false.
Proof.
  intros Hl Hint Hfuel. split; [|split; reflexivity].
  assert (Hmax : Z.of_nat (length c) <= SizeT.MAX).
  { assert (2 ^ 31 <= SizeT.MAX) by (vm_compute; discriminate). lia. }
  rewrite (range_for_spec l _ _ (enumerate l)
             (mut_body_acts l Tests.set_to_index) eq_refl c h tt fuel
             Hl Hmax Hfuel).
  cbn [mbind option_bind].
  change 0 with (Z.of_nat 0).
  rewrite (run_upd_set_to_index 0 c) by (cbn [Nat.add]; exact Hint).
  cbn [fst snd]. fold (positions (length c)).
  assert (Hl1 : <[l := positions (length c)]> h !! l
                = Some (positions (length c))) by apply lookup_insert_eq.
  assert (Hlen : length (positions (length c)) = length c)
    by apply positions_length.
  rewrite (range_for_spec l _ _ (enumerate l)
             (const_body_acts l Tests.require_value_eq_index) eq_refl
             (positions (length c)) _ true fuel Hl1).
  - rewrite run_upd_reading. rewrite insert_insert_eq.
    unfold positions at 2. change 0 with (Z.of_nat 0).
    rewrite run_upd_require_value by (cbn [Nat.add]; exact Hint).
    reflexivity.
  - rewrite Hlen. exact Hmax.
  - rewrite Hlen. exact Hfuel.
Qed.

Lemma write_then_check_passes_up_to_int_max_witness :
  (range_for 4 (enumerate 2) (mut_body Tests.set_to_index)
             ({[ 2%positive := [7; -1; 5] ]} : Heap Z) tt
   ≫= λ '(h1, _),
       range_for 4 (enumerate 2)
                 (const_body Tests.require_value_eq_index) h1 true)
  = Some (<[2%positive := positions (length [7; -1; 5])]>
            ({[ 2%positive := [7; -1; 5] ]} : Heap Z), true)
  ∧ static_cast_int (2 ^ 31) = - 2 ^ 31
  ∧ Tests.require_value_eq_index (2 ^ 31) (static_cast_int (2 ^ 31)) true
    = false.
Proof.
  apply (write_then_check_passes_up_to_int_max
           ({[ 2%positive := [7; -1; 5] ]} : Heap Z) 2%positive
           [7; -1; 5] 4).
  - reflexivity.
  - vm_compute. discriminate.
  - vm_compute. lia.
Defined.

End TestBodies.

(* ===================================================================== *)
(** ** More about what the types allow *)
(* ===================================================================== *)

Section TypingLaws.

(** Where the element can be assigned to.  Only under the mutable binding,
    and there through [auto& [index, value]], through [get<1>] of a
    non-const result, and through the member [value] of a result whether
    it is [const] or not: the member is an iterator, so the [const] of the
    result does not reach the element.  [const auto&], [const auto] and
    [get<1>] of a [const] result give a [const] element. *)
Theorem element_assignable_iff (b : Binding) (p : Static.AccessPath) :
  Static.assignable (Static.element_type p (Static.result_args b)) = true
  ↔ b = MutableBinding
    ∧ (p = Static.ByName false
       ∨ p = Static.ByName true
       ∨ p = Static.ByGet false
       ∨ p = Static.ByStructuredBinding Static.auto_ref).
Proof.
  destruct b, p as [[|]|[|]|[| |]]; cbn; split;
    try discriminate; try (intros [? ?]; discriminate);
    try (intros _; split; [reflexivity|]; tauto);
    try (intros _; reflexivity);
    intros [_ [H|[H|[H|H]]]]; discriminate H.
Qed.

(** Where the position can be assigned to.  Under either binding, exactly
    by member name and through [get<0>] on a result that is not [const];
    never as a structured binding and never on a [const] result. *)
Theorem position_assignable_iff (b : Binding) (p : Static.AccessPath) :
  Static.assignable (Static.position_type p (Static.result_args b)) = true
  ↔ p = Static.ByName false ∨ p = Static.ByGet false.
Proof.
  destruct b, p as [[|]|[|]|[| |]]; cbn; split;
    try discriminate; try tauto;
    try (intros _; reflexivity);
    intros [H|H]; discriminate H.
Qed.

(** The two [tuple_element] specialisations for references to a result
    name the same type, [ValueType&]: the [const] written in the one for
    [const EnumeratedIteratorResult&] is applied to a reference type and
    is lost.  Under the mutable binding both therefore name an assignable
    element.  The specialisations for the result by value do differ. *)
Theorem reference_specialisations_coincide (T : Static.ResultArgs) :
  Static.tuple_element 1 (Static.mkResultType T true true)
  = Static.tuple_element 1 (Static.mkResultType T false true)
  ∧ Static.tuple_element 1 (Static.mkResultType T true true)
    = Some (Static.mkCType (Static.is_const (Static.ValueType T))
                           (Static.base (Static.ValueType T)) true)
  ∧ Static.assignable
      (Static.tuple_element 1
         (Static.mkResultType (Static.result_args MutableBinding) true true))
    = true
  ∧ Static.assignable
      (Static.tuple_element 1
         (Static.mkResultType (Static.result_args MutableBinding) true false))
    = false
  ∧ Static.tuple_element 0 (Static.mkResultType T true true) = None
  ∧ Static.tuple_element 0 (Static.mkResultType T false true) = None.
Proof. repeat split; reflexivity. Qed.

(** Which declarations type-check.  [auto&], [const auto&] and
    [const auto] do under both bindings: each name's type receives the
    matching [get], no [const] dropped.  Plain [auto] does not under the
    mutable binding: the copy is passed to the [const] overload of
    [get<1>], whose [const] element cannot initialise the non-const
    [value_type] that [tuple_element<1>] names. *)
Theorem supported_declarations (b : Binding) (d : Static.Decl) :
  Static.form_well_formed (Static.form_of d) (Static.result_args b) = true
  ∧ (∀ i : nat,
       Static.name_type (Static.form_of d) i (Static.result_args b)
       = Static.binding_type d i (Static.result_args b))
  ∧ Static.form_well_formed Static.form_auto
      (Static.result_args MutableBinding)
    = false
  ∧ Static.reference_binds
      (Static.name_type Static.form_auto 0 (Static.result_args MutableBinding))
      (Static.init_type Static.form_auto 0 (Static.result_args MutableBinding))
    = true
  ∧ Static.reference_binds
      (Static.name_type Static.form_auto 1 (Static.result_args MutableBinding))
      (Static.init_type Static.form_auto 1 (Static.result_args MutableBinding))
    = false.
Proof.
  split; [destruct b, d; reflexivity|].
  split; [intros i; reflexivity|].
  repeat split; reflexivity.
Qed.

End TypingLaws.
